(** * Verification of the wifi-qr-code credential encoder (src/src/lib.rs)

    A Rust [String] is a UTF-8 byte vector; it is modelled as a Rocq
    [string], i.e. a list of 8-bit [ascii] characters (bytes).  All the
    patterns used by [escape] are single ASCII bytes, which never occur
    inside the multi-byte UTF-8 encoding of a non-ASCII character, so a
    byte-level replacement is exactly Rust's [str::replace] on them. *)

From Stdlib Require Import String Ascii List Bool Arith Lia.
Import ListNotations.
Open Scope string_scope.

(** ** Characters used by the grammar *)

(** backslash [\] *)
Definition bs : ascii := "092"%char.
(** double quote *)
Definition dq : ascii := "034"%char.
Definition semi : ascii := ";"%char.
Definition comma : ascii := ","%char.
Definition colon : ascii := ":"%char.

(** ** Data model (lib.rs, lines 125-169) *)

Inductive AuthenticationType : Type :=
| WEP (password : string)
| WPA (password : string)
| NoPassword.

Inductive Visibility : Type :=
| Visible
| Hidden.

Record WifiCredentials : Type := mkWifiCredentials {
  ssid : string;
  authentication_type : AuthenticationType;
  visibility : Visibility
}.

(** ** [str::replace] with a one-character pattern

    Rust's [s.replace(pat, to)] scans [s] left to right and substitutes
    [to] for every non-overlapping occurrence of [pat].  Every call in
    [escape] uses a one-character pattern, for which this is: *)
Fixpoint replace (pat : ascii) (to s : string) : string :=
  match s with
  | EmptyString => EmptyString
  | String c s' =>
      if Ascii.eqb c pat then to ++ replace pat to s'
      else String c (replace pat to s')
  end.

(** The two-character string [\c]. *)
Definition esc1 (c : ascii) : string := String bs (String c EmptyString).

(** [fn escape(input: &str) -> String] (lib.rs, lines 200-207). *)
Definition escape (input : string) : string :=
  replace colon (esc1 colon)
    (replace comma (esc1 comma)
      (replace semi (esc1 semi)
        (replace dq (esc1 dq)
          (replace bs (esc1 bs) input)))).

(** [AuthenticationType::encode] (lib.rs, lines 135-141). *)
Definition AuthenticationType_encode (a : AuthenticationType) : string :=
  match a with
  | WEP password => "T:WEP;P:" ++ escape password ++ ";"
  | WPA password => "T:WPA;P:" ++ escape password ++ ";"
  | NoPassword => "T:nopass;"
  end.

(** [Visibility::encode] (lib.rs, lines 153-158). *)
Definition Visibility_encode (v : Visibility) : string :=
  match v with
  | Visible => "H:false;"
  | Hidden => "H:true;"
  end.

(** [WifiCredentials::encode_ssid] (lib.rs, lines 195-197). *)
Definition encode_ssid (w : WifiCredentials) : string :=
  "S:" ++ escape (ssid w) ++ ";".

(** [WifiCredentials::encode] (lib.rs, lines 186-193):
    [format!("WIFI:{}{}{};", ...)]. *)
Definition encode (w : WifiCredentials) : string :=
  "WIFI:" ++ encode_ssid w ++ AuthenticationType_encode (authentication_type w)
          ++ Visibility_encode (visibility w) ++ ";".

(** ** Test data (lib.rs, lines 213-258) *)

(** The ssid and password of [it_properly_handles_escaped_characters]. *)
Definition special : string :=
  "special_characters " ++ String dq (";,:" ++ String bs EmptyString).

(** Its expected escaped form. *)
Definition special_escaped : string :=
  "special_characters " ++ esc1 dq ++ esc1 semi ++ esc1 comma ++ esc1 colon
    ++ esc1 bs.

(** ** Rendering entry points (lib.rs, lines 78-122)

    The QR renderer is the external crate [qrcode_generator]; its
    [to_png_to_writer] is kept abstract.  The writer is threaded as an
    explicit state: the call returns its result and the writer after the
    bytes have been written. *)
Section Rendering.
Variable QrCodeEcc : Type.
Variable QRCodeError : Type.
Variable Writer : Type.
Variable to_png_to_writer :
  string -> QrCodeEcc -> nat -> Writer -> (unit + QRCodeError) * Writer.

(** [pub fn encode_as_png] *)
Definition encode_as_png (w : WifiCredentials) (ecc : QrCodeEcc)
    (image_size : nat) (writer : Writer) : (unit + QRCodeError) * Writer :=
  to_png_to_writer (encode w) ecc image_size writer.

(** [pub fn encode_as_svg]: the body calls the same PNG writer. *)
Definition encode_as_svg (w : WifiCredentials) (ecc : QrCodeEcc)
    (image_size : nat) (writer : Writer) : (unit + QRCodeError) * Writer :=
  to_png_to_writer (encode w) ecc image_size writer.

(** (C9) [encode_as_svg] is the PNG path: it agrees with [encode_as_png]
    on every input, and both hand the encoded text to [to_png_to_writer]. *)
Theorem encode_as_svg_is_png_path :
  forall w ecc image_size writer,
    encode_as_svg w ecc image_size writer = encode_as_png w ecc image_size writer
    /\ encode_as_svg w ecc image_size writer
       = to_png_to_writer (encode w) ecc image_size writer.
Proof. intros; split; reflexivity. Qed.
End Rendering.

(** ** Reference definitions following the spec's words *)

(** The five reserved characters. *)
Definition is_reserved (c : ascii) : bool :=
  Ascii.eqb c bs || Ascii.eqb c dq || Ascii.eqb c semi
  || Ascii.eqb c comma || Ascii.eqb c colon.

(** Spec: one left-to-right pass prefixing a backslash to every reserved
    character, every other character unchanged. *)
Fixpoint escape_one_pass (t : string) : string :=
  match t with
  | EmptyString => EmptyString
  | String c t' =>
      if is_reserved c then String bs (String c (escape_one_pass t'))
      else String c (escape_one_pass t')
  end.

(** [str::replace] with a two-character pattern [a b] and a one-character
    replacement [r]: left to right, non-overlapping. *)
Fixpoint replace2 (a b r : ascii) (s : string) : string :=
  match s with
  | EmptyString => EmptyString
  | String c s' =>
      if Ascii.eqb c a then
        match s' with
        | String d s'' =>
            if Ascii.eqb d b then String r (replace2 a b r s'')
            else String c (replace2 a b r s')
        | EmptyString => String c EmptyString
        end
      else String c (replace2 a b r s')
  end.

(** Spec: the five-step unescape, the inverse substitutions applied in the
    same order as the escape. *)
Definition unescape (t : string) : string :=
  replace2 bs colon colon
    (replace2 bs comma comma
      (replace2 bs semi semi
        (replace2 bs dq dq
          (replace2 bs bs bs t)))).

(** Number of reserved characters in a text. *)
Fixpoint count_reserved (t : string) : nat :=
  match t with
  | EmptyString => 0
  | String c t' => (if is_reserved c then 1 else 0) + count_reserved t'
  end.

(** Escape exactly the characters of [L], in one left-to-right pass: the
    state of the text after some of the [replace] steps of [escape], or
    before some of the [replace2] steps of [unescape]. *)
Fixpoint memb (c : ascii) (L : list ascii) : bool :=
  match L with
  | [] => false
  | y :: L' => Ascii.eqb c y || memb c L'
  end.

Fixpoint esc_set (L : list ascii) (t : string) : string :=
  match t with
  | EmptyString => EmptyString
  | String c t' =>
      if memb c L then String bs (String c (esc_set L t'))
      else String c (esc_set L t')
  end.

(** ** Auxiliary facts on strings *)

Lemma sappend_assoc : forall a b c : string, a ++ (b ++ c) = (a ++ b) ++ c.
Proof. induction a as [|x a IH]; intros; simpl; [reflexivity | now rewrite IH]. Qed.

(** ** Escaping lemmas *)

Lemma memb_app_single : forall c L x,
  memb c (L ++ [x]) = memb c L || Ascii.eqb c x.
Proof.
  intros c L x. induction L as [|y L IH]; cbn [memb app].
  - now rewrite orb_false_r.
  - now rewrite IH, orb_assoc.
Qed.

Lemma esc_set_nil : forall t, esc_set [] t = t.
Proof. induction t as [|c t IH]; cbn; [reflexivity | now rewrite IH]. Qed.

(** One [replace x "\x"] step adds [x] to the set of escaped characters,
    provided [x] is new and no backslash inserted so far is [x]. *)
Lemma replace_esc_set : forall x L t,
  memb x L = false -> (L <> [] -> bs <> x) ->
  replace x (esc1 x) (esc_set L t) = esc_set (L ++ [x]) t.
Proof.
  intros x L t Hx Hbs. induction t as [|c t IH]; [reflexivity|].
  cbn [esc_set]. rewrite memb_app_single.
  destruct (memb c L) eqn:Hc.
  - assert (Hb : bs <> x) by (apply Hbs; intros ->; discriminate).
    assert (Hcx : c <> x) by (intros ->; congruence).
    cbn [replace]. rewrite (proj2 (Ascii.eqb_neq _ _) Hb).
    cbn [replace]. rewrite (proj2 (Ascii.eqb_neq _ _) Hcx).
    now rewrite IH.
  - cbn [orb replace]. destruct (Ascii.eqb_spec c x) as [->|Hcx].
    + now rewrite IH.
    + now rewrite IH.
Qed.

Lemma esc_set_reserved : forall t,
  esc_set [bs; dq; semi; comma; colon] t = escape_one_pass t.
Proof.
  induction t as [|c t IH]; [reflexivity|]. cbn [esc_set escape_one_pass].
  unfold is_reserved. cbn [memb]. rewrite orb_false_r, !orb_assoc, IH.
  reflexivity.
Qed.

Lemma escape_esc_set : forall t,
  escape t = esc_set [bs; dq; semi; comma; colon] t.
Proof.
  intro t. unfold escape.
  rewrite <- (esc_set_nil t) at 1.
  rewrite (replace_esc_set bs []) by (reflexivity || congruence).
  rewrite (replace_esc_set dq [bs]) by (reflexivity || (intros _; discriminate)).
  rewrite (replace_esc_set semi [bs; dq]) by (reflexivity || (intros _; discriminate)).
  rewrite (replace_esc_set comma [bs; dq; semi]) by (reflexivity || (intros _; discriminate)).
  rewrite (replace_esc_set colon [bs; dq; semi; comma]) by (reflexivity || (intros _; discriminate)).
  reflexivity.
Qed.

(** ** Unescaping lemmas *)

Lemma esc_set_head : forall x L t d r,
  x <> bs -> esc_set (x :: L) t = String d r -> d <> x.
Proof.
  intros x L [|c t] d r Hx E; cbn [esc_set] in E; [discriminate|].
  destruct (memb c (x :: L)) eqn:Hc; injection E as <- _.
  - intro H; apply Hx; now symmetry.
  - cbn [memb] in Hc. apply orb_false_iff in Hc as [Hc _].
    now apply Ascii.eqb_neq.
Qed.

(** One [replace2 '\' x x] step removes [x] from the set of escaped
    characters: every [\x] it meets is an escape, never a raw backslash
    followed by a raw [x]. *)
Lemma replace2_esc_set : forall x L t,
  memb x L = false -> (x = bs \/ memb bs L = false) ->
  replace2 bs x x (esc_set (x :: L) t) = esc_set L t.
Proof.
  intros x L t Hx Hbs. induction t as [|c t IH]; [reflexivity|].
  cbn [esc_set memb].
  destruct (Ascii.eqb_spec c x) as [->|Hcx]; cbn [orb].
  - rewrite Hx. cbn [replace2]. rewrite !Ascii.eqb_refl. now rewrite IH.
  - destruct (memb c L) eqn:Hc.
    + assert (Hcb : c <> bs).
      { intros ->. destruct Hbs as [->|Hbs]; [now apply Hcx | congruence]. }
      cbn [replace2]. rewrite Ascii.eqb_refl.
      rewrite (proj2 (Ascii.eqb_neq _ _) Hcx), (proj2 (Ascii.eqb_neq _ _) Hcb).
      now rewrite IH.
    + destruct (Ascii.eqb_spec c bs) as [->|Hcb].
      * cbn [replace2]. rewrite Ascii.eqb_refl.
        destruct (esc_set (x :: L) t) as [|d r] eqn:E.
        -- now rewrite <- IH.
        -- assert (Hd : d <> x) by (apply (esc_set_head x L t d r); auto).
           rewrite (proj2 (Ascii.eqb_neq _ _) Hd). now rewrite IH.
      * cbn [replace2]. rewrite (proj2 (Ascii.eqb_neq _ _) Hcb). now rewrite IH.
Qed.

Lemma unescape_escape : forall t, unescape (escape t) = t.
Proof.
  intro t. rewrite escape_esc_set. unfold unescape.
  rewrite (replace2_esc_set bs [dq; semi; comma; colon]) by auto.
  rewrite (replace2_esc_set dq [semi; comma; colon]) by auto.
  rewrite (replace2_esc_set semi [comma; colon]) by auto.
  rewrite (replace2_esc_set comma [colon]) by auto.
  rewrite (replace2_esc_set colon []) by auto.
  apply esc_set_nil.
Qed.

(** ** Facts on the one-pass form *)

Lemma escape_is_one_pass : forall t, escape t = escape_one_pass t.
Proof. intro t. now rewrite escape_esc_set, esc_set_reserved. Qed.

Lemma one_pass_no_reserved : forall t,
  count_reserved t = 0 -> escape_one_pass t = t.
Proof.
  induction t as [|c t IH]; cbn; [reflexivity|].
  destruct (is_reserved c); [discriminate|]. intro H. now rewrite IH.
Qed.

Lemma one_pass_length : forall t,
  String.length (escape_one_pass t) = String.length t + count_reserved t.
Proof.
  induction t as [|c t IH]; cbn; [reflexivity|].
  destruct (is_reserved c); cbn; rewrite IH; lia.
Qed.

Lemma one_pass_count : forall t,
  count_reserved (escape_one_pass t) = 2 * count_reserved t.
Proof.
  induction t as [|c t IH]; cbn; [reflexivity|].
  destruct (is_reserved c) eqn:Hc; cbn; rewrite ?Hc, IH; lia.
Qed.

Lemma sappend_inj_l : forall p x y : string, p ++ x = p ++ y -> x = y.
Proof.
  induction p as [|c p IH]; cbn; intros x y H; [exact H|].
  injection H as H. now apply IH.
Qed.

(** The first [;] not preceded by an escaping backslash ends an escaped
    text: an escaped text followed by [;] determines both the text and
    what follows. *)
Lemma one_pass_semi_prefix : forall s1 s2 r1 r2,
  escape_one_pass s1 ++ String semi r1 = escape_one_pass s2 ++ String semi r2 ->
  s1 = s2 /\ r1 = r2.
Proof.
  induction s1 as [|c1 s1 IH]; intros [|c2 s2] r1 r2 H; cbn in H.
  - now injection H.
  - destruct (is_reserved c2) eqn:Hc2; injection H as H1 _;
      [discriminate H1 | subst c2; discriminate Hc2].
  - destruct (is_reserved c1) eqn:Hc1; injection H as H1 _;
      [discriminate H1 | subst c1; discriminate Hc1].
  - destruct (is_reserved c1) eqn:Hc1, (is_reserved c2) eqn:Hc2; cbn in H.
    + injection H as <- H. destruct (IH _ _ _ H) as [-> ->]. now split.
    + injection H as Hb H. subst c2. discriminate Hc2.
    + injection H as Hb H. subst c1. discriminate Hc1.
    + injection H as <- H. destruct (IH _ _ _ H) as [-> ->]. now split.
Qed.

Lemma encode_flat : forall s a v,
  encode (mkWifiCredentials s a v) =
  "WIFI:S:" ++ escape_one_pass s ++
    String semi (AuthenticationType_encode a ++ Visibility_encode v ++ ";").
Proof.
  intros s a v. unfold encode, encode_ssid. cbn [ssid authentication_type visibility].
  rewrite escape_is_one_pass, <- !sappend_assoc. reflexivity.
Qed.

(** ** Claims *)

(** (C1) [encode] is the concatenation of [WIFI:], the ssid segment, the
    authentication segment (no [P:] segment for [NoPassword]), the
    visibility segment and a final [;]. *)
Theorem encode_shape :
  forall w,
    encode w =
    "WIFI:" ++ "S:" ++ escape (ssid w) ++ ";" ++
    (match authentication_type w with
     | WEP p => "T:WEP;P:" ++ escape p ++ ";"
     | WPA p => "T:WPA;P:" ++ escape p ++ ";"
     | NoPassword => "T:nopass;"
     end) ++
    (match visibility w with Hidden => "H:true;" | Visible => "H:false;" end)
    ++ ";".
Proof.
  intros [s a v]. unfold encode, encode_ssid. simpl.
  destruct a, v; simpl; rewrite <- ?sappend_assoc; reflexivity.
Qed.

(** (C4) The escaped-characters test vector. *)
Theorem encode_special_characters :
  encode (mkWifiCredentials special (WEP special) Visible)
  = "WIFI:S:" ++ special_escaped ++ ";T:WEP;P:" ++ special_escaped
      ++ ";H:false;;".
Proof. vm_compute. reflexivity. Qed.

(** (C7) The three plain test vectors. *)
Theorem encode_plain_vectors :
  encode (mkWifiCredentials "test ssid" (WEP "test password") Visible)
    = "WIFI:S:test ssid;T:WEP;P:test password;H:false;;"
  /\ encode (mkWifiCredentials "test ssid" (WPA "test password") Hidden)
    = "WIFI:S:test ssid;T:WPA;P:test password;H:true;;"
  /\ encode (mkWifiCredentials "test ssid" NoPassword Visible)
    = "WIFI:S:test ssid;T:nopass;H:false;;".
Proof. repeat split; vm_compute; reflexivity. Qed.

(** (C8) Empty ssid and password give empty [S:] and [P:] segments. *)
Theorem encode_empty_fields :
  encode (mkWifiCredentials "" (WEP "") Visible) = "WIFI:S:;T:WEP;P:;H:false;;"
  /\ encode (mkWifiCredentials "" (WPA "") Visible) = "WIFI:S:;T:WPA;P:;H:false;;"
  /\ encode (mkWifiCredentials "" (WEP "") Hidden) = "WIFI:S:;T:WEP;P:;H:true;;"
  /\ encode (mkWifiCredentials "" (WPA "") Hidden) = "WIFI:S:;T:WPA;P:;H:true;;"
  /\ encode (mkWifiCredentials "" NoPassword Visible) = "WIFI:S:;T:nopass;H:false;;"
  /\ encode (mkWifiCredentials "" NoPassword Hidden) = "WIFI:S:;T:nopass;H:true;;".
Proof. repeat split; vm_compute; reflexivity. Qed.

(** (C5) [encode] is total and its result starts with [WIFI:] and ends
    with [;;]; in particular it is never empty. *)
Theorem encode_delimiters :
  forall w,
    (exists body, encode w = "WIFI:" ++ body ++ ";;")
    /\ String.prefix "WIFI:" (encode w) = true
    /\ encode w <> "".
Proof.
  intros [s a v].
  assert (E : encode (mkWifiCredentials s a v) =
    "WIFI:" ++ ("S:" ++ escape s ++ ";" ++ AuthenticationType_encode a ++
                match v with Hidden => "H:true" | Visible => "H:false" end) ++ ";;").
  { unfold encode, encode_ssid. cbn [ssid authentication_type visibility].
    destruct v; cbn [Visibility_encode]; rewrite <- !sappend_assoc; reflexivity. }
  split; [eexists; exact E|]. rewrite E. split; [reflexivity | discriminate].
Qed.

(** (C3) The five sequential replacements of [escape] equal one
    left-to-right pass that puts a backslash before each reserved character
    and leaves every other character alone; in particular a backslash
    inserted by a later step is never escaped again: the output is longer
    than the input by exactly one character per reserved character. *)
Theorem escape_single_pass :
  forall t,
    escape t = escape_one_pass t
    /\ String.length (escape t) = String.length t + count_reserved t.
Proof.
  intro t. rewrite escape_is_one_pass. split; [reflexivity | apply one_pass_length].
Qed.

(** (C2) Round trip: the five-step unescape undoes [escape] on every text,
    so unescaping the [S:] segment of the output gives back the ssid and
    unescaping the [P:] segment gives back the password. *)
Theorem escape_round_trip :
  (forall t, unescape (escape t) = t)
  /\ (forall w,
        (exists seg rest,
            encode w = "WIFI:S:" ++ seg ++ ";" ++ rest /\ unescape seg = ssid w)
        /\ match authentication_type w with
           | WEP p | WPA p =>
               exists pre seg post,
                 encode w = pre ++ "P:" ++ seg ++ ";" ++ post /\ unescape seg = p
           | NoPassword => True
           end).
Proof.
  split; [exact unescape_escape|].
  intros [s a v]. cbn [ssid authentication_type]. split.
  - exists (escape s),
      (AuthenticationType_encode a ++ Visibility_encode v ++ ";").
    split; [|apply unescape_escape].
    unfold encode, encode_ssid. cbn [ssid authentication_type visibility].
    now rewrite <- !sappend_assoc.
  - destruct a as [p|p|]; [| |exact I];
      [exists ("WIFI:S:" ++ escape s ++ ";T:WEP;")
      |exists ("WIFI:S:" ++ escape s ++ ";T:WPA;")];
      exists (escape p), (Visibility_encode v ++ ";");
      (split; [|apply unescape_escape]);
      unfold encode, encode_ssid; cbn [ssid authentication_type visibility
        AuthenticationType_encode]; rewrite <- !sappend_assoc; reflexivity.
Qed.

(** (C6) [escape] is the identity, hence idempotent, on texts without a
    reserved character, and re-escaping changes every text that has one. *)
Theorem escape_idempotent_iff_no_reserved :
  forall t,
    (count_reserved t = 0 -> escape t = t /\ escape (escape t) = escape t)
    /\ (count_reserved t > 0 -> escape (escape t) <> escape t).
Proof.
  intro t. rewrite !escape_is_one_pass. split.
  - intro H. rewrite !(one_pass_no_reserved t H). now split.
  - intros H E. apply (f_equal String.length) in E.
    rewrite (one_pass_length (escape_one_pass t)), one_pass_count in E. lia.
Qed.

(** (C10) [encode] is injective: different credentials give different
    payloads. *)
Theorem encode_injective :
  forall w1 w2, encode w1 = encode w2 -> w1 = w2.
Proof.
  intros [s1 a1 v1] [s2 a2 v2] H. rewrite !encode_flat in H.
  apply sappend_inj_l, one_pass_semi_prefix in H as [-> H].
  assert (Hv : forall v1 v2, Visibility_encode v1 ++ ";" = Visibility_encode v2 ++ ";" ->
                             v1 = v2)
    by (intros [] [] E; cbn in E; congruence).
  destruct a1 as [p1|p1|], a2 as [p2|p2|]; cbn [AuthenticationType_encode] in H;
    rewrite <- ?sappend_assoc in H; cbn [append] in H; try discriminate H.
  - apply (sappend_inj_l "T:WEP;P:") in H. rewrite !escape_is_one_pass in H.
    apply one_pass_semi_prefix in H as [-> H]. now rewrite (Hv _ _ H).
  - apply (sappend_inj_l "T:WPA;P:") in H. rewrite !escape_is_one_pass in H.
    apply one_pass_semi_prefix in H as [-> H]. now rewrite (Hv _ _ H).
  - apply (sappend_inj_l "T:nopass;") in H. now rewrite (Hv _ _ H).
Qed.

(** Witness for C6: a text without reserved characters is left alone, one
    with a [;] is changed by a second escape. *)
Lemma escape_idempotent_iff_no_reserved_witness :
  (escape "abc" = "abc" /\ escape (escape "abc") = escape "abc")
  /\ escape (escape "a;b") <> escape "a;b".
Proof.
  split.
  - apply (proj1 (escape_idempotent_iff_no_reserved "abc")). reflexivity.
  - apply (proj2 (escape_idempotent_iff_no_reserved "a;b")). vm_compute. lia.
Defined.

(** Witness for C10: equal payloads of a concrete credential. *)
Lemma encode_injective_witness :
  encode (mkWifiCredentials "net" (WPA "pw") Hidden)
    = encode (mkWifiCredentials "net" (WPA "pw") Hidden)
  /\ mkWifiCredentials "net" (WPA "pw") Hidden = mkWifiCredentials "net" (WPA "pw") Hidden.
Proof.
  split; [reflexivity|]. apply encode_injective. reflexivity.
Defined.

(** * Further properties of the encoder *)

(** ** Observations on payloads *)

(** A text that is a well-formed sequence of escape tokens: every backslash
    starts a two-character token [\c] with [c] reserved, and no other
    reserved character occurs. *)
Fixpoint well_escaped (s : string) : bool :=
  match s with
  | EmptyString => true
  | String c s' =>
      if Ascii.eqb c bs then
        match s' with
        | String d s'' => is_reserved d && well_escaped s''
        | EmptyString => false
        end
      else negb (is_reserved c) && well_escaped s'
  end.

(** Drop the escaping backslash of every token [\c]. *)
Fixpoint drop_escapes (s : string) : string :=
  match s with
  | EmptyString => EmptyString
  | String c s' =>
      if Ascii.eqb c bs then
        match s' with
        | String d s'' => String d (drop_escapes s'')
        | EmptyString => EmptyString
        end
      else String c (drop_escapes s')
  end.

(** Prepend a text to the first field of a non-empty list of fields. *)
Definition cons_head (p : string) (l : list string) : list string :=
  match l with
  | [] => [p]
  | f :: fs => (p ++ f) :: fs
  end.

(** Split a payload at its separators: the semicolons that are not the
    second character of a [\c] token.  The fields keep their escapes. *)
Fixpoint fields (s : string) : list string :=
  match s with
  | EmptyString => [EmptyString]
  | String c s' =>
      if Ascii.eqb c bs then
        match s' with
        | String d s'' => cons_head (String c (String d EmptyString)) (fields s'')
        | EmptyString => [String c EmptyString]
        end
      else if Ascii.eqb c semi then EmptyString :: fields s'
      else cons_head (String c EmptyString) (fields s')
  end.

(** A literal without backslash or semicolon. *)
Fixpoint plain (p : string) : bool :=
  match p with
  | EmptyString => true
  | String c p' => negb (Ascii.eqb c bs) && negb (Ascii.eqb c semi) && plain p'
  end.

(** ** Helper lemmas *)

Lemma slength_append : forall a b : string,
  String.length (a ++ b) = String.length a + String.length b.
Proof. induction a as [|x a IH]; intros; cbn; [reflexivity | now rewrite IH]. Qed.

Lemma sappend_nil_r : forall a : string, a ++ EmptyString = a.
Proof. induction a as [|x a IH]; cbn; [reflexivity | now rewrite IH]. Qed.

Lemma bs_reserved : is_reserved bs = true.
Proof. reflexivity. Qed.

Lemma not_reserved_not_bs : forall c, is_reserved c = false -> Ascii.eqb c bs = false.
Proof.
  intros c H. apply Ascii.eqb_neq. intros ->. discriminate H.
Qed.

Lemma not_reserved_not_semi : forall c, is_reserved c = false -> Ascii.eqb c semi = false.
Proof.
  intros c H. apply Ascii.eqb_neq. intros ->. discriminate H.
Qed.

Lemma one_pass_app : forall a b,
  escape_one_pass (a ++ b) = escape_one_pass a ++ escape_one_pass b.
Proof.
  induction a as [|c a IH]; intros b; cbn; [reflexivity|].
  destruct (is_reserved c); cbn; now rewrite IH.
Qed.

Lemma count_reserved_le : forall t, count_reserved t <= String.length t.
Proof.
  induction t as [|c t IH]; cbn; [lia|]. destruct (is_reserved c); lia.
Qed.

Lemma one_pass_well_escaped : forall t, well_escaped (escape_one_pass t) = true.
Proof.
  induction t as [|c t IH]; [reflexivity|]. cbn [escape_one_pass].
  destruct (is_reserved c) eqn:Hc.
  - cbn [well_escaped]. rewrite Ascii.eqb_refl, Hc, IH. reflexivity.
  - cbn [well_escaped]. rewrite (not_reserved_not_bs c Hc), Hc, IH. reflexivity.
Qed.

Lemma well_escaped_drop : forall n s,
  String.length s <= n -> well_escaped s = true ->
  escape_one_pass (drop_escapes s) = s.
Proof.
  induction n as [|n IH]; intros [|c s] Hlen Hw;
    [reflexivity | cbn in Hlen; lia | reflexivity | cbn in Hlen].
  cbn [well_escaped drop_escapes] in *.
  destruct (Ascii.eqb_spec c bs) as [->|Hcb].
  - destruct s as [|d s]; [discriminate Hw|].
    apply andb_true_iff in Hw as [Hd Hw]. cbn in Hlen.
    cbn [escape_one_pass]. rewrite Hd, IH by (auto; lia). reflexivity.
  - apply andb_true_iff in Hw as [Hc Hw]. apply negb_true_iff in Hc.
    cbn [escape_one_pass]. rewrite Hc, IH by (auto; lia). reflexivity.
Qed.

Lemma cons_head_app : forall a b l,
  cons_head a (cons_head b l) = cons_head (a ++ b) l.
Proof.
  intros a b [|f l]; cbn; [reflexivity|]. now rewrite sappend_assoc.
Qed.

Lemma cons_head_nil : forall l, l <> [] -> cons_head EmptyString l = l.
Proof. intros [|f l] H; [congruence | reflexivity]. Qed.

Lemma fields_not_nil : forall x, fields x <> [].
Proof.
  intros [|c x]; cbn; [discriminate|].
  destruct (Ascii.eqb c bs); [destruct x|destruct (Ascii.eqb c semi)];
    try discriminate; unfold cons_head; destruct (fields _); discriminate.
Qed.

Lemma fields_plain : forall p x,
  plain p = true -> fields (p ++ x) = cons_head p (fields x).
Proof.
  induction p as [|c p IH]; intros x Hp;
    [symmetry; apply cons_head_nil, fields_not_nil|].
  cbn [plain] in Hp. apply andb_true_iff in Hp as [Hp Hrest].
  apply andb_true_iff in Hp as [Hb Hs].
  apply negb_true_iff in Hb, Hs.
  cbn [append fields]. rewrite Hb, Hs, IH by exact Hrest.
  apply cons_head_app.
Qed.

Lemma fields_semi : forall r, fields (String semi r) = EmptyString :: fields r.
Proof. reflexivity. Qed.

Lemma fields_one_pass : forall t x,
  fields (escape_one_pass t ++ x) = cons_head (escape_one_pass t) (fields x).
Proof.
  induction t as [|c t IH]; intros x;
    [symmetry; apply cons_head_nil, fields_not_nil|].
  cbn [escape_one_pass]. destruct (is_reserved c) eqn:Hc.
  - cbn [append fields]. rewrite Ascii.eqb_refl, IH, cons_head_app. reflexivity.
  - cbn [append fields].
    rewrite (not_reserved_not_bs c Hc), (not_reserved_not_semi c Hc), IH.
    apply cons_head_app.
Qed.

(** ** Properties *)

(** [escape] is compositional: the replacements never act across the
    boundary of two concatenated texts. *)
Theorem escape_app :
  forall a b, escape (a ++ b) = escape a ++ escape b.
Proof. intros a b. rewrite !escape_is_one_pass. apply one_pass_app. Qed.

(** [escape] never shortens a text and at most doubles its length. *)
Theorem escape_length_bounds :
  forall t,
    String.length t <= String.length (escape t) <= 2 * String.length t.
Proof.
  intro t. rewrite escape_is_one_pass, one_pass_length.
  pose proof (count_reserved_le t). lia.
Qed.

(** The outputs of [escape] are exactly the well-formed escaped texts: every
    backslash starts a token [\c] with [c] reserved, and no reserved
    character occurs outside such a token. *)
Theorem escape_image :
  forall s, (exists t, escape t = s) <-> well_escaped s = true.
Proof.
  intro s. split.
  - intros [t <-]. rewrite escape_is_one_pass. apply one_pass_well_escaped.
  - intro Hw. exists (drop_escapes s). rewrite escape_is_one_pass.
    apply (well_escaped_drop (String.length s)); auto.
Qed.

(** Split at its separators (semicolons not escaped by a backslash), the
    payload has exactly the grammar's fields: the escaped ssid, the type,
    the escaped password unless [NoPassword], the visibility, and two empty
    fields from the closing [;;].  User text never adds or hides a
    separator. *)
Theorem encode_fields :
  forall w,
    fields (encode w) =
    ("WIFI:S:" ++ escape (ssid w))
      :: app (match authentication_type w with
              | WEP p => ["T:WEP"; "P:" ++ escape p]
              | WPA p => ["T:WPA"; "P:" ++ escape p]
              | NoPassword => ["T:nopass"]
              end)
             [match visibility w with Hidden => "H:true" | Visible => "H:false" end;
              EmptyString; EmptyString].
Proof.
  intros [s a v]. rewrite encode_flat.
  rewrite (fields_plain "WIFI:S:") by reflexivity.
  rewrite fields_one_pass, fields_semi. cbn [cons_head ssid authentication_type visibility].
  rewrite sappend_nil_r, escape_is_one_pass.
  destruct a as [p|p|], v; cbn [AuthenticationType_encode Visibility_encode];
    rewrite ?escape_is_one_pass, <- ?sappend_assoc; cbn -[escape_one_pass];
    rewrite ?fields_one_pass; cbn -[escape_one_pass];
    rewrite ?sappend_nil_r; reflexivity.
Qed.

(** Length of the payload: 25 characters of grammar (26 when visible), plus
    each escaped text, which is its length plus its number of reserved
    characters.  No password costs as much as an empty one. *)
Theorem encode_length :
  forall w,
    String.length (encode w) =
    25 + (match visibility w with Visible => 1 | Hidden => 0 end)
    + String.length (ssid w) + count_reserved (ssid w)
    + (match authentication_type w with
       | WEP p | WPA p => String.length p + count_reserved p
       | NoPassword => 0
       end).
Proof.
  intros [s a v]. rewrite encode_flat. cbn [ssid authentication_type visibility].
  rewrite slength_append. cbn [String.length append].
  rewrite slength_append, one_pass_length. cbn [String.length].
  destruct a as [p|p|], v; cbn [AuthenticationType_encode Visibility_encode];
    rewrite ?slength_append, ?escape_is_one_pass, ?one_pass_length;
    cbn [String.length append]; rewrite ?slength_append; cbn [String.length]; lia.
Qed.

(** * The example program (src/examples/qr_code_gen.rs) *)

(** [qrcode_generator::QrCodeEcc], re-exported by lib.rs (line 7). *)
Inductive QrCodeEcc : Type :=
| Low
| Medium
| Quartile
| High.

(** [struct Opt] (lines 11-23), as parsed by [Opt::from_args]. *)
Record Opt : Type := mkOpt {
  opt_hidden : bool;
  opt_size : nat;
  opt_ssid : string;
  opt_png_file : string
}.

(** How [main] ends: a panic (from [expect]), [Err] or [Ok(())]. *)
Inductive MainOutcome (IoError : Type) : Type :=
| Panicked (msg : string)
| Failed (e : IoError)
| Finished.
Arguments Panicked {IoError} msg.
Arguments Failed {IoError} e.
Arguments Finished {IoError}.

Section ExampleMain.
(** The outside world (terminal and file system), threaded as a state. *)
Variable World : Type.
Variable IoError : Type.
Variable File : Type.
Variable QRCodeError : Type.
(** [rpassword::read_password_from_tty] *)
Variable read_password_from_tty :
  option string -> World -> (string + IoError) * World.
(** [File::create] *)
Variable file_create : string -> World -> (File + IoError) * World.
(** [qrcode_generator::to_png_to_writer] on a file writer. *)
Variable png_write :
  string -> QrCodeEcc -> nat -> File -> World -> (unit + QRCodeError) * World.
(** The [From<QRCodeError> for std::io::Error] conversion used by [?]. *)
Variable io_error_of_qr : QRCodeError -> IoError.

(** The file handed to [encode_as_png] as its writer, with the world it
    writes to. *)
Definition file_to_png_to_writer (payload : string) (ecc : QrCodeEcc)
    (image_size : nat) (fw : File * World) : (unit + QRCodeError) * (File * World) :=
  let (r, w') := png_write payload ecc image_size (fst fw) (snd fw) in
  (r, (fst fw, w')).

(** [fn main] (lines 25-46), from the parsed options. *)
Definition main (opt : Opt) (w0 : World) : MainOutcome IoError * World :=
  let (pw, w1) := read_password_from_tty (Some "Password: ") w0 in
  match pw with
  | inr _ => (Panicked "Failed to get password.", w1)
  | inl password =>
      let visibility := if opt_hidden opt then Hidden else Visible in
      let wifi_credentials :=
        mkWifiCredentials (opt_ssid opt) (WPA password) visibility in
      let (fr, w2) := file_create (opt_png_file opt) w1 in
      match fr with
      | inr e => (Failed e, w2)
      | inl png_file =>
          let (r, fw) :=
            encode_as_png QrCodeEcc QRCodeError (File * World)
              file_to_png_to_writer wifi_credentials Medium (opt_size opt)
              (png_file, w2) in
          match r with
          | inl _ => (Finished, snd fw)
          | inr qe => (Failed (io_error_of_qr qe), snd fw)
          end
      end
  end.

(** If the password cannot be read, [main] panics before touching the file
    system: the world is the one left by the password prompt. *)
Theorem main_password_failure :
  forall opt w0 e w1,
    read_password_from_tty (Some "Password: ") w0 = (inr e, w1) ->
    main opt w0 = (Panicked "Failed to get password.", w1).
Proof. intros opt w0 e w1 H. unfold main. now rewrite H. Qed.

(** If the PNG file cannot be created, [main] returns that error and
    renders nothing. *)
Theorem main_create_failure :
  forall opt w0 password w1 e w2,
    read_password_from_tty (Some "Password: ") w0 = (inl password, w1) ->
    file_create (opt_png_file opt) w1 = (inr e, w2) ->
    main opt w0 = (Failed e, w2).
Proof. intros opt w0 password w1 e w2 H1 H2. unfold main. now rewrite H1, H2. Qed.

(** Otherwise [main] renders, at medium error correction and the requested
    size, the payload of a WPA network with the typed password, hidden
    exactly when [--hidden] is given; it succeeds iff rendering does, and a
    rendering error is returned converted to an I/O error. *)
Theorem main_renders_wpa_payload :
  forall opt w0 password w1 f w2 r w3,
    read_password_from_tty (Some "Password: ") w0 = (inl password, w1) ->
    file_create (opt_png_file opt) w1 = (inl f, w2) ->
    png_write
      ("WIFI:S:" ++ escape (opt_ssid opt) ++ ";T:WPA;P:" ++ escape password
         ++ ";H:" ++ (if opt_hidden opt then "true" else "false") ++ ";;")
      Medium (opt_size opt) f w2 = (r, w3) ->
    main opt w0 =
    (match r with inl _ => Finished | inr qe => Failed (io_error_of_qr qe) end, w3).
Proof.
  intros opt w0 password w1 f w2 r w3 H1 H2 H3. unfold main. rewrite H1, H2.
  unfold encode_as_png, file_to_png_to_writer. cbn [fst snd].
  replace (encode _) with
    ("WIFI:S:" ++ escape (opt_ssid opt) ++ ";T:WPA;P:" ++ escape password
       ++ ";H:" ++ (if opt_hidden opt then "true" else "false") ++ ";;").
  - rewrite H3. now destruct r.
  - unfold encode, encode_ssid. cbn [ssid authentication_type visibility
      AuthenticationType_encode].
    destruct (opt_hidden opt); cbn [Visibility_encode];
      rewrite <- ?sappend_assoc; reflexivity.
Qed.
End ExampleMain.

(** ** A concrete world for running [main]: an event log. *)

Definition log_read_ok (_ : option string) (w : list string)
    : (string + string) * list string :=
  (inl "secret", "read" :: w).

Definition log_read_fail (_ : option string) (w : list string)
    : (string + string) * list string :=
  (inr "no tty", w).

Definition log_create_ok (p : string) (w : list string)
    : (string + string) * list string :=
  (inl p, ("create " ++ p) :: w).

Definition log_create_fail (_ : string) (w : list string)
    : (string + string) * list string :=
  (inr "permission denied", w).

Definition log_png_write (payload : string) (_ : QrCodeEcc) (_ : nat) (f : string)
    (w : list string) : (unit + nat) * list string :=
  (inl tt, ("write " ++ f ++ " " ++ payload) :: w).

Definition log_qr_error (_ : nat) : string := "qr error".

Definition example_opt : Opt := mkOpt true 512 "home;net" "wifi.png".

Lemma main_password_failure_witness :
  log_read_fail (Some "Password: ") [] = (inr "no tty", [])
  /\ main (list string) string string nat log_read_fail log_create_ok log_png_write
       log_qr_error example_opt [] = (Panicked "Failed to get password.", []).
Proof.
  split; [reflexivity|].
  apply (main_password_failure (list string) string string nat log_read_fail
           log_create_ok log_png_write log_qr_error example_opt [] "no tty" []).
  reflexivity.
Defined.

Lemma main_create_failure_witness :
  log_create_fail "wifi.png" ["read"] = (inr "permission denied", ["read"])
  /\ main (list string) string string nat log_read_ok log_create_fail log_png_write
       log_qr_error example_opt [] = (Failed "permission denied", ["read"]).
Proof.
  split; [reflexivity|].
  apply (main_create_failure (list string) string string nat log_read_ok
           log_create_fail log_png_write log_qr_error example_opt [] "secret"
           ["read"] "permission denied" ["read"]); reflexivity.
Defined.

Lemma main_renders_wpa_payload_witness :
  main (list string) string string nat log_read_ok log_create_ok log_png_write
    log_qr_error example_opt []
  = (Finished,
     ["write wifi.png WIFI:S:home" ++ esc1 semi ++ "net;T:WPA;P:secret;H:true;;";
      "create wifi.png"; "read"]).
Proof.
  apply (main_renders_wpa_payload (list string) string string nat log_read_ok
           log_create_ok log_png_write log_qr_error example_opt [] "secret"
           ["read"] "wifi.png" ["create wifi.png"; "read"] (inl tt));
    vm_compute; reflexivity.
Defined.
